(** * voice_to_cursor: incremental typing of streamed speech hypotheses

  A shallow embedding of [src/transcribe/voice_to_cursor.py].

  - Python [float]s (wall-clock times, stability scores) are exact
    rationals [Q]; the only operations the program performs on them are a
    subtraction and the comparisons [>=] and [>].
  - Python [str] is a list of characters over an [Alphabet] that supplies
    what the program asks of a character: [c.lower()], membership in the
    whitespace class used by [strip]/[lstrip], and the literal [" "].
  - The process-wide globals ([exit_event], [last_speech_time]), the wall
    clock and the keyboard are the fields of a [World] record threaded
    through every function.
  - [time.time()] reads the field [now].  The clock advances when a loop
    blocks: pulling the next result from the response generator sets it
    to the time at which that response was received, and
    [time.sleep d] advances it by [d]. *)

From Stdlib Require Import Ascii String.
From Stdlib Require Import List Bool Arith Lia ZArith NArith QArith Lqa.
Import ListNotations.

Local Open Scope Q_scope.
Local Open Scope list_scope.

(** ** Characters and strings *)

Class Alphabet (char : Type) := {
  char_eq_dec : forall a b : char, {a = b} + {a <> b};
  (** [c.lower()] for a one-character string [c] (may be longer than [c]) *)
  lower : char -> list char;
  (** the whitespace class of [str.strip()] and [str.lstrip()] *)
  isspace : char -> bool;
  (** the character of the literal [" "] *)
  space : char
}.

Module Latin1.

(** Code points U+0000 to U+00FF, one [ascii] each. *)

Definition is_upper (n : N) : bool :=
  ((65 <=? n) && (n <=? 90) || (192 <=? n) && (n <=? 222) && negb (n =? 215))%N.

Definition lower (c : ascii) : list ascii :=
  let n := N_of_ascii c in
  if is_upper n then [ascii_of_N (n + 32)] else [c].

Definition isspace (c : ascii) : bool :=
  let n := N_of_ascii c in
  ((9 <=? n) && (n <=? 13) || (28 <=? n) && (n <=? 32)
   || (n =? 133) || (n =? 160))%N.

End Latin1.

#[export] Instance latin1 : Alphabet ascii := {
  char_eq_dec := ascii_dec;
  lower := Latin1.lower;
  isspace := Latin1.isspace;
  space := " "%char
}.

(** A string literal as a Python [str]. *)
Definition py (s : string) : list ascii := list_ascii_of_string s.

Section Strings.

Context {char : Type} `{Alphabet char}.

(** [a.lower() == b.lower()] *)
Definition ci_eqb (a b : char) : bool :=
  if list_eq_dec char_eq_dec (lower a) (lower b) then true else false.

(** truthiness of a [str] *)
Definition nonempty (s : list char) : bool :=
  match s with [] => false | _ :: _ => true end.

Fixpoint lstrip (s : list char) : list char :=
  match s with
  | [] => []
  | c :: s' => if isspace c then lstrip s' else s
  end.

Definition rstrip (s : list char) : list char := rev (lstrip (rev s)).

Definition strip (s : list char) : list char := rstrip (lstrip s).

(** The loop of lines 128-134, entered with [common_prefix_len = i] and
    [n] indices of [range(min_len)] still to visit. *)
Fixpoint prefix_loop (current_text last_typed_text : list char)
         (i n : nat) : nat :=
  match n with
  | O => i
  | S n' =>
      match nth_error current_text i, nth_error last_typed_text i with
      | Some a, Some b =>
          if ci_eqb a b
          then prefix_loop current_text last_typed_text (S i) n'
          else i
      | _, _ => i
      end
  end.

Definition common_prefix_len (current_text last_typed_text : list char) : nat :=
  let min_len := Nat.min (length current_text) (length last_typed_text) in
  prefix_loop current_text last_typed_text 0 min_len.

(** [a] is a case-insensitive prefix of [b]. *)
Fixpoint ci_prefixb (a b : list char) : bool :=
  match a, b with
  | [], _ => true
  | x :: a', y :: b' => ci_eqb x y && ci_prefixb a' b'
  | _ :: _, [] => false
  end.

End Strings.

(** ** Numbers *)

Definition TYPE_INTERVAL : Q := 1.
Definition TYPE_STABILITY_THRESHOLD : Q := 7 # 10.
Definition SILENCE_THRESHOLD : Q := 3.
Definition POLL_INTERVAL : Q := 3 # 10.
Definition DEBUG : bool := false.

(** [x >= y] and [x > y] on floats *)
Definition geb (x y : Q) : bool := Qle_bool y x.
Definition gtb (x y : Q) : bool := negb (Qle_bool x y).

(** ** Data model *)

Section Model.

Context {char : Type} `{Alphabet char}.

Record Transcript := mkTranscript {
  text : list char;
  stability : Q;
  is_final : bool
}.

(** [Transcript()] *)
Definition Transcript_default : Transcript :=
  {| text := []; stability := 0; is_final := false |}.

Record SpeechResult := mkSpeechResult {
  timestamp : Q;
  transcript : Transcript
}.

Record TypeState := mkTypeState {
  last_type_time : Q;
  last_typed_text : list char
}.

(** What [debug_print] and the debug branch of the engine would print. *)
Inductive LogLine :=
| LogResult (r : SpeechResult)
| LogWouldType (s : list char)
| LogNoActivity
| LogSignal.

Record World := mkWorld {
  now : Q;
  exit_event : bool;
  last_speech_time : Q;
  (** arguments of the calls to [keyboard.write], oldest first *)
  keyboard : list (list char);
  stdout : list LogLine
}.

Definition time_time (w : World) : Q := now w.

Definition set_now (t : Q) (w : World) : World :=
  {| now := t; exit_event := exit_event w;
     last_speech_time := last_speech_time w;
     keyboard := keyboard w; stdout := stdout w |}.

Definition time_sleep (d : Q) (w : World) : World := set_now (now w + d) w.

Definition exit_event_set (w : World) : World :=
  {| now := now w; exit_event := true;
     last_speech_time := last_speech_time w;
     keyboard := keyboard w; stdout := stdout w |}.

Definition set_last_speech_time (t : Q) (w : World) : World :=
  {| now := now w; exit_event := exit_event w;
     last_speech_time := t;
     keyboard := keyboard w; stdout := stdout w |}.

Definition keyboard_write (s : list char) (w : World) : World :=
  {| now := now w; exit_event := exit_event w;
     last_speech_time := last_speech_time w;
     keyboard := keyboard w ++ [s]; stdout := stdout w |}.

Definition print (l : LogLine) (w : World) : World :=
  {| now := now w; exit_event := exit_event w;
     last_speech_time := last_speech_time w;
     keyboard := keyboard w; stdout := stdout w ++ [l] |}.

Definition debug_print (l : LogLine) (w : World) : World :=
  if DEBUG then print l w else w.

(** ** The recognition backend's responses *)

Record Alternative := mkAlternative { alt_transcript : list char }.

Record Result := mkResult {
  alternatives : list Alternative;
  result_is_final : bool;
  result_stability : Q
}.

Record Response := mkResponse { results : list Result }.

(** Lines 82-97: the body of the loop of [process_responses], for a
    response received at time [t]. *)
Definition normalize (t : Q) (response : Response) : SpeechResult :=
  let timestamp := t in
  match results response with
  | [] => mkSpeechResult timestamp Transcript_default
  | result :: _ =>
      match alternatives result with
      | [] => mkSpeechResult timestamp Transcript_default
      | alt :: _ =>
          {| timestamp := timestamp;
             transcript := {| text := alt_transcript alt;
                              is_final := result_is_final result;
                              stability := result_stability result |} |}
      end
  end.

(** [process_responses]: the results the generator yields for the
    responses [(arrival time, response)] while the world is [w]. *)
Fixpoint process_responses (responses : list (Q * Response)) (w : World)
  : list SpeechResult :=
  match responses with
  | [] => []
  | (t, response) :: rest =>
      if exit_event w then []
      else normalize t response :: process_responses rest w
  end.

(** ** The typing engine *)

(** Lines 114-120. *)
Definition should_type (result : SpeechResult) (state : TypeState)
           (w : World) : bool :=
  is_final (transcript result)
  || (geb (time_time w - last_type_time state) TYPE_INTERVAL
      && gtb (stability (transcript result)) TYPE_STABILITY_THRESHOLD).

(** Line 136. *)
Definition text_to_type (current_text last_typed : list char) : list char :=
  lstrip (skipn (common_prefix_len current_text last_typed) current_text).

(** Lines 123-145: the body of [if should_type:]. *)
Definition commit (result : SpeechResult) (state : TypeState) (w : World)
  : TypeState * World :=
  let w := set_last_speech_time (time_time w) w in
  let current_text := strip (text (transcript result)) in
  let text_to_type := text_to_type current_text (last_typed_text state) in
  if nonempty text_to_type then
    let w := if DEBUG then print (LogWouldType text_to_type) w
             else keyboard_write (text_to_type ++ [space]) w in
    ({| last_typed_text := current_text; last_type_time := time_time w |}, w)
  else (state, w).

(** Lines 111-148: one turn of the loop of [handle_results], after the
    test of [exit_event]. *)
Definition handle_result (result : SpeechResult) (state : TypeState)
           (w : World) : TypeState * World :=
  if nonempty (text (transcript result)) then
    let w := debug_print (LogResult result) w in
    let '(state, w) :=
      if should_type result state w then commit result state w
      else (state, w) in
    if is_final (transcript result)
    then ({| last_type_time := time_time w; last_typed_text := [] |}, w)
    else (state, w)
  else (state, w).

(** The loop of lines 107-148.  Taking [result] from the generator
    blocks until its response has been received, at [timestamp result]. *)
Fixpoint handle_results_loop (results : list SpeechResult)
         (state : TypeState) (w : World) : TypeState * World :=
  match results with
  | [] => (state, w)
  | result :: rest =>
      let w := set_now (timestamp result) w in
      if exit_event w then (state, w)
      else
        let '(state, w) := handle_result result state w in
        handle_results_loop rest state w
  end.

(** Line 105. *)
Definition TypeState_fresh (w : World) : TypeState :=
  {| last_type_time := time_time w; last_typed_text := [] |}.

Definition handle_results (results : list SpeechResult) (w : World)
  : TypeState * World :=
  handle_results_loop results (TypeState_fresh w) w.

(** [process]: no call of the model raises. *)
Definition process (responses : list (Q * Response)) (w : World)
  : TypeState * World :=
  handle_results (process_responses responses w) w.

(** ** The liveness monitor *)

(** [monitor_activity], run for at most [fuel] turns of its loop. *)
Fixpoint monitor_activity (fuel : nat) (w : World) : World :=
  match fuel with
  | O => w
  | S fuel' =>
      if exit_event w then w
      else if gtb (time_time w - last_speech_time w) SILENCE_THRESHOLD
           then exit_event_set (debug_print LogNoActivity w)
           else monitor_activity fuel' (time_sleep POLL_INTERVAL w)
  end.



(** ** The microphone buffer *)

(** [in_data]: one block of captured samples. *)
Definition AudioFrame : Type := list Init.Byte.byte.

Record MicrophoneStream := mkMicrophoneStream {
  buff : list AudioFrame;
  closed : bool
}.

(** [MicrophoneStream._fill_buffer] *)
Definition fill_buffer (in_data : AudioFrame) (self : MicrophoneStream)
  : MicrophoneStream :=
  if negb (closed self)
  then {| buff := buff self ++ [in_data]; closed := closed self |}
  else self.

(** [MicrophoneStream.__exit__] *)
Definition mic_exit (self : MicrophoneStream) : MicrophoneStream :=
  if negb (closed self)
  then {| buff := buff self; closed := true |}
  else self.

(** ** The threads together *)


(** What can happen next in the process.  A turn of a loop is taken as one
    step: a flag set by another thread is seen at the next turn. *)
Inductive Event :=
| Deliver (t : Q) (response : Response)
    (** the backend's next response arrives at [t]: one turn of the loops
        of [process_responses] and [handle_results] *)
| Capture (in_data : AudioFrame)
    (** the capture callback [_fill_buffer] *)
| Take
    (** one turn of the loop of [MicrophoneStream.generator] *)
| Poll (t : Q)
    (** one turn of the loop of [monitor_activity], at [t] *)
| Signal
    (** [signal_handler] *)
| Close.
    (** leaving the [with MicrophoneStream(...)] block *)

Record System := mkSystem {
  world : World;
  mic : MicrophoneStream;
  (** the [state] of [handle_results]; [None] once its loop has ended *)
  typing : option TypeState;
  (** whether the loop of [monitor_activity] is still running *)
  monitoring : bool;
  (** the frames [generator] has yielded, oldest first *)
  sent : list AudioFrame
}.

Definition step (e : Event) (s : System) : System :=
  match e with
  | Deliver t response =>
      match typing s with
      | None => s
      | Some state =>
          let w := set_now t (world s) in
          if exit_event w
          then {| world := w; mic := mic s; typing := None;
                  monitoring := monitoring s; sent := sent s |}
          else
            let '(state, w) := handle_result (normalize t response) state w in
            {| world := w; mic := mic s; typing := Some state;
               monitoring := monitoring s; sent := sent s |}
      end
  | Capture in_data =>
      {| world := world s; mic := fill_buffer in_data (mic s);
         typing := typing s; monitoring := monitoring s; sent := sent s |}
  | Take =>
      if negb (closed (mic s)) && negb (exit_event (world s)) then
        match buff (mic s) with
        | frame :: rest =>
            {| world := world s;
               mic := {| buff := rest; closed := closed (mic s) |};
               typing := typing s; monitoring := monitoring s;
               sent := sent s ++ [frame] |}
        | [] => s
        end
      else s
  | Poll t =>
      if monitoring s then
        let w := set_now t (world s) in
        if exit_event w
        then {| world := w; mic := mic s; typing := typing s;
                monitoring := false; sent := sent s |}
        else if gtb (time_time w - last_speech_time w) SILENCE_THRESHOLD
        then {| world := exit_event_set (debug_print LogNoActivity w);
                mic := mic s; typing := typing s;
                monitoring := false; sent := sent s |}
        else {| world := w; mic := mic s; typing := typing s;
                monitoring := true; sent := sent s |}
      else s
  | Signal =>
      {| world := exit_event_set (debug_print LogSignal (world s));
         mic := mic s; typing := typing s;
         monitoring := monitoring s; sent := sent s |}
  | Close =>
      {| world := world s; mic := mic_exit (mic s);
         typing := typing s; monitoring := monitoring s; sent := sent s |}
  end.

Fixpoint run (es : list Event) (s : System) : System :=
  match es with
  | [] => s
  | e :: es' => run es' (step e s)
  end.

(** The process when [main] has started its threads at time [t0]. *)
Definition start (t0 : Q) : System :=
  let w := {| now := t0; exit_event := false; last_speech_time := t0;
              keyboard := []; stdout := [] |} in
  {| world := w; mic := {| buff := []; closed := false |};
     typing := Some (TypeState_fresh w); monitoring := true; sent := [] |}.

(** * Specification vocabulary *)

(** The candidate text of a result: line 126. *)
Definition candidate (result : SpeechResult) : list char :=
  strip (text (transcript result)).

(** Each candidate extends the one before it, up to case. *)
Fixpoint ci_chain (prev : list char) (cs : list (list char)) : bool :=
  match cs with
  | [] => true
  | c :: cs' => ci_prefixb prev c && ci_chain c cs'
  end.

(** Each candidate extends the one before it, letter for letter. *)
Fixpoint exact_chain (prev : list char) (cs : list (list char)) : Prop :=
  match cs with
  | [] => True
  | c :: cs' => firstn (length prev) c = prev /\ exact_chain c cs'
  end.

(** Two strings of the same length that agree up to case. *)
Definition ci_equal (a b : list char) : Prop :=
  Forall2 (fun x y => lower x = lower y) a b.

(** The results of one utterance: none but the last may be final. *)
Fixpoint one_utterance (results : list SpeechResult) : bool :=
  match results with
  | [] => true
  | result :: rest =>
      match rest with
      | [] => true
      | _ :: _ => negb (is_final (transcript result)) && one_utterance rest
      end
  end.

(** What each candidate adds behind the one before it, in its own casing. *)
Fixpoint increments (prev : list char) (cs : list (list char))
  : list (list char) :=
  match cs with
  | [] => []
  | c :: cs' => skipn (length prev) c :: increments c cs'
  end.

(** The strings typed for a list of increments: the empty ones are passed
    over, the others lose their leading whitespace and gain one space. *)
Definition injected (incs : list (list char)) : list (list char) :=
  map (fun d => lstrip d ++ [space]) (filter nonempty incs).

(** Every result of the list is committed when the loop reaches it. *)
Fixpoint all_committed (results : list SpeechResult) (state : TypeState)
         (w : World) : Prop :=
  match results with
  | [] => True
  | result :: rest =>
      let w := set_now (timestamp result) w in
      nonempty (text (transcript result)) = true /\
      should_type result state w = true /\
      all_committed rest (fst (handle_result result state w))
                         (snd (handle_result result state w))
  end.

(** The commit decision as the specification words it. *)
Definition commit_decision (result : SpeechResult) (state : TypeState)
           (w : World) : Prop :=
  is_final (transcript result) = true \/
  (TYPE_INTERVAL <= now w - last_type_time state /\
   TYPE_STABILITY_THRESHOLD < stability (transcript result)).

(** The end of a turn of the loop: lines 147-148. *)
Definition end_of_turn (result : SpeechResult) (sw : TypeState * World)
  : TypeState * World :=
  if is_final (transcript result)
  then ({| last_type_time := time_time (snd sw); last_typed_text := [] |},
        snd sw)
  else sw.

(** "If B is a strict prefix of the committed A, the commit for B injects
    nothing, but the baseline becomes B." *)
Definition no_retype_claim (result : SpeechResult) (state : TypeState)
           (w : World) : Prop :=
  ci_prefixb (candidate result) (last_typed_text state) = true ->
  (length (candidate result) < length (last_typed_text state))%nat ->
  keyboard (snd (commit result state w)) = keyboard w /\
  last_typed_text (fst (commit result state w)) = candidate result.

(** "The second of two consecutive finals with the same text injects
    nothing." *)
Definition identical_finals_claim (r1 r2 : SpeechResult) (state : TypeState)
           (w : World) : Prop :=
  exit_event w = false ->
  is_final (transcript r1) = true ->
  is_final (transcript r2) = true ->
  text (transcript r1) = text (transcript r2) ->
  let sw1 := handle_results_loop [r1] state w in
  keyboard (snd (handle_results_loop [r2] (fst sw1) (snd sw1)))
  = keyboard (snd sw1).

(** "The last-activity timestamp is left unchanged by a result that injects
    nothing." *)
Definition activity_frame_claim (result : SpeechResult) (state : TypeState)
           (w : World) : Prop :=
  keyboard (snd (handle_result result state w)) = keyboard w ->
  last_speech_time (snd (handle_result result state w)) == last_speech_time w.

(** "After the shutdown flag has been set no text is typed and no frame is
    enqueued." *)
Definition shutdown_claim (before after : list Event) (s : System) : Prop :=
  let s1 := run before s in
  exit_event (world s1) = true ->
  keyboard (world (run after s1)) = keyboard (world s1) /\
  buff (mic (run after s1)) = buff (mic s1).

End Model.

(** ** Concrete sessions *)

(** A hypothesis over Latin-1 text, received at [t]. *)
Definition hypothesis (t : Q) (s : string) (stab : Q) (final : bool)
  : @SpeechResult ascii :=
  {| timestamp := t;
     transcript := {| text := py s; stability := stab; is_final := final |} |}.

(** The world when the process has just started, at [t0]. *)
Definition world_at (t0 : Q) : @World ascii :=
  {| now := t0; exit_event := false; last_speech_time := t0;
     keyboard := []; stdout := [] |}.

(** The end-to-end example of the specification. *)
Definition example_results : list (@SpeechResult ascii) :=
  [ hypothesis 0 "hell" (9 # 10) false;
    hypothesis (11 # 10) "hello world" (9 # 10) false;
    hypothesis (12 # 10) "hello world." (95 # 100) true ].

(** "From a fresh session state the engine injects exactly these three
    strings": the state is made at [now w], no later than the arrival of
    the first hypothesis at 0. *)
Definition example_claim (w : @World ascii) : Prop :=
  exit_event w = false ->
  keyboard w = [] ->
  now w <= 0 ->
  keyboard (snd (handle_results example_results w))
  = [py "hell "; py "o world "; py ". "].

(** * The session around the engine *)

Section Service.

Context {char : Type} `{Alphabet char}.

Local Abbreviation World := (@World char).
Local Abbreviation TypeState := (@TypeState char).
Local Abbreviation Response := (@Response char).
Local Abbreviation Event := (@Event char).

(** What the iterator of backend responses does when the loop of
    [process_responses] asks it for the next one, at time [t]. *)
Inductive Inbound :=
| Received (t : Q) (response : Response)
| Broken (t : Q).
    (** the iterator raises *)

(** How the call of [handle_results] inside [process] ends. *)
Inductive Outcome :=
| Returned (state : TypeState) (w : World)
| Raised (w : World).

(** The loops of [process_responses] and [handle_results] over a stream
    that may break.  Each turn first takes the next response, which may
    raise; the exception leaves both loops. *)
Fixpoint handle_inbound_loop (inbound : list Inbound) (state : TypeState)
         (w : World) : Outcome :=
  match inbound with
  | [] => Returned state w
  | Broken t :: _ => Raised (set_now t w)
  | Received t response :: rest =>
      let w := set_now t w in
      if exit_event w then Returned state w
      else
        let '(state, w) := handle_result (normalize t response) state w in
        handle_inbound_loop rest state w
  end.

(** [run_speech_service], from the call of [process] on: the [except]
    clause of lines 154-156 sets the flag ([debug_print] prints nothing,
    [DEBUG] being [False]). *)
Definition run_speech_service (inbound : list Inbound) (w : World) : World :=
  match handle_inbound_loop inbound (TypeState_fresh w) w with
  | Returned _ w' => w'
  | Raised w' => exit_event_set w'
  end.

(** The frames the capture callback enqueues during [es], given whether the
    buffer is closed at the start. *)
Fixpoint accepted (es : list Event) (is_closed : bool) : list AudioFrame :=
  match es with
  | [] => []
  | Capture in_data :: es' =>
      if is_closed then accepted es' is_closed
      else in_data :: accepted es' is_closed
  | Close :: es' => accepted es' true
  | _ :: es' => accepted es' is_closed
  end.

(** A string handed to [keyboard.write]: a text that is not empty and has
    no whitespace at either end, and one space behind it. *)
Definition trimmed_then_space (s : list char) : Prop :=
  exists body : list char,
    s = body ++ [space] /\ nonempty body = true /\ strip body = body.

End Service.
(** * Properties *)

(** ** Comparisons *)

Lemma geb_true_iff (x y : Q) : geb x y = true <-> y <= x.
Proof. unfold geb. apply Qle_bool_iff. Qed.

Lemma gtb_true_iff (x y : Q) : gtb x y = true <-> y < x.
Proof.
  unfold gtb. rewrite negb_true_iff. split; intro Hxy.
  - apply Qnot_le_lt. intro Hle. apply Qle_bool_iff in Hle. congruence.
  - destruct (Qle_bool x y) eqn:E; [|reflexivity].
    apply Qle_bool_iff in E. exfalso. apply (Qlt_not_le _ _ Hxy E).
Qed.

(** ** Strings *)

Section StringFacts.

Context {char : Type} `{Alphabet char}.

Lemma ci_eqb_true_iff (a b : char) : ci_eqb a b = true <-> lower a = lower b.
Proof.
  unfold ci_eqb. destruct (list_eq_dec char_eq_dec (lower a) (lower b));
    split; congruence.
Qed.

Lemma ci_eqb_refl (a : char) : ci_eqb a a = true.
Proof. now apply ci_eqb_true_iff. Qed.

Lemma ci_eqb_sym (a b : char) : ci_eqb a b = ci_eqb b a.
Proof.
  destruct (ci_eqb a b) eqn:E1, (ci_eqb b a) eqn:E2; try reflexivity.
  - apply ci_eqb_true_iff in E1. symmetry in E1.
    apply ci_eqb_true_iff in E1. congruence.
  - apply ci_eqb_true_iff in E2. symmetry in E2.
    apply ci_eqb_true_iff in E2. congruence.
Qed.

Lemma ci_eqb_trans (a b c : char) :
  ci_eqb a b = true -> ci_eqb b c = true -> ci_eqb a c = true.
Proof. rewrite !ci_eqb_true_iff. congruence. Qed.

(** The loop of [common_prefix_len] does not look below its index. *)
Lemma prefix_loop_cons (x y : char) (a b : list char) (n i : nat) :
  prefix_loop (x :: a) (y :: b) (S i) n = S (prefix_loop a b i n).
Proof.
  revert i. induction n as [|n IH]; intro i; simpl; [reflexivity|].
  destruct (nth_error a i), (nth_error b i); try reflexivity.
  destruct (ci_eqb c c0); [apply IH | reflexivity].
Qed.

Lemma common_prefix_len_nil_r (a : list char) : common_prefix_len a [] = 0%nat.
Proof. unfold common_prefix_len. now rewrite Nat.min_0_r. Qed.

Lemma common_prefix_len_nil_l (b : list char) : common_prefix_len [] b = 0%nat.
Proof. reflexivity. Qed.

Lemma common_prefix_len_cons (x y : char) (a b : list char) :
  common_prefix_len (x :: a) (y :: b) =
  if ci_eqb x y then S (common_prefix_len a b) else 0%nat.
Proof.
  unfold common_prefix_len. simpl.
  destruct (ci_eqb x y); [apply prefix_loop_cons | reflexivity].
Qed.

Lemma ci_prefixb_length (a b : list char) :
  ci_prefixb a b = true -> (length a <= length b)%nat.
Proof.
  revert b. induction a as [|x a IH]; intros [|y b] Hp; simpl in *;
    try lia; try discriminate.
  apply andb_true_iff in Hp. destruct Hp as [_ Hp]. apply IH in Hp. lia.
Qed.

Lemma ci_prefixb_refl (a : list char) : ci_prefixb a a = true.
Proof. induction a; simpl; [reflexivity|]. now rewrite ci_eqb_refl. Qed.

Lemma ci_prefixb_trans (a b c : list char) :
  ci_prefixb a b = true -> ci_prefixb b c = true -> ci_prefixb a c = true.
Proof.
  revert b c. induction a as [|x a IH]; intros [|y b] [|z c] Hab Hbc;
    simpl in *; try reflexivity; try discriminate.
  apply andb_true_iff in Hab. apply andb_true_iff in Hbc.
  destruct Hab as [Hxy Hab], Hbc as [Hyz Hbc].
  rewrite (ci_eqb_trans _ _ _ Hxy Hyz). simpl. eapply IH; eassumption.
Qed.

(** The diff against a case-insensitive prefix finds all of it. *)
Lemma common_prefix_len_prefix_l (a b : list char) :
  ci_prefixb a b = true -> common_prefix_len a b = length a.
Proof.
  revert b. induction a as [|x a IH]; intros [|y b] Hp; simpl in *;
    try reflexivity; try discriminate.
  apply andb_true_iff in Hp. destruct Hp as [Hxy Hp].
  rewrite common_prefix_len_cons, Hxy. f_equal. now apply IH.
Qed.

Lemma common_prefix_len_prefix_r (a b : list char) :
  ci_prefixb a b = true -> common_prefix_len b a = length a.
Proof.
  revert b. induction a as [|x a IH]; intros [|y b] Hp; simpl in *;
    try discriminate.
  - reflexivity.
  - apply common_prefix_len_nil_r.
  - apply andb_true_iff in Hp. destruct Hp as [Hxy Hp].
    rewrite common_prefix_len_cons, ci_eqb_sym, Hxy. f_equal. now apply IH.
Qed.

(** *** Whitespace *)

Lemma lstrip_app_nonspace (l : list char) (c : char) :
  isspace c = false -> lstrip (l ++ [c]) = lstrip l ++ [c].
Proof.
  intro Hc. induction l as [|x l IH]; simpl.
  - now rewrite Hc.
  - destruct (isspace x); [exact IH | reflexivity].
Qed.

Lemma lstrip_head (s : list char) :
  lstrip s = [] \/ exists c t, lstrip s = c :: t /\ isspace c = false.
Proof.
  induction s as [|x s IH]; simpl; [now left|].
  destruct (isspace x) eqn:E; [exact IH|]. right. now exists x, s.
Qed.

Lemma lstrip_nonspace (c : char) (t : list char) :
  isspace c = false -> lstrip (c :: t) = c :: t.
Proof. intro Hc. simpl. now rewrite Hc. Qed.

Lemma rstrip_cons_nonspace (c : char) (t : list char) :
  isspace c = false -> rstrip (c :: t) = c :: rstrip t.
Proof.
  intro Hc. unfold rstrip. simpl.
  rewrite (lstrip_app_nonspace _ _ Hc), rev_app_distr. reflexivity.
Qed.

(** A stripped string has no leading whitespace left. *)
Lemma lstrip_strip (s : list char) : lstrip (strip s) = strip s.
Proof.
  unfold strip. destruct (lstrip_head s) as [E | (c & t & E & Hc)]; rewrite E.
  - reflexivity.
  - rewrite (rstrip_cons_nonspace _ _ Hc). now apply lstrip_nonspace.
Qed.

(** A stripped string is empty or ends in a non-whitespace character. *)
Lemma rstrip_last (s : list char) :
  rstrip s = [] \/ exists t c, rstrip s = t ++ [c] /\ isspace c = false.
Proof.
  unfold rstrip. destruct (lstrip_head (rev s)) as [E | (c & t & E & Hc)];
    rewrite E; [now left|].
  right. exists (rev t), c. now split.
Qed.

Lemma lstrip_nil_inv (l : list char) (c : char) :
  isspace c = false -> lstrip (l ++ [c]) <> [].
Proof.
  intros Hc E. rewrite (lstrip_app_nonspace _ _ Hc) in E.
  now destruct (lstrip l).
Qed.

(** What remains of a stripped string after a cut is not all whitespace. *)
Lemma lstrip_skipn_strip (s : list char) (n : nat) :
  lstrip (skipn n (strip s)) = [] -> skipn n (strip s) = [].
Proof.
  unfold strip. destruct (rstrip_last (lstrip s)) as [E | (t & c & E & Hc)];
    rewrite E.
  - now rewrite skipn_nil.
  - intro Hl. destruct (Nat.le_gt_cases n (length t)) as [Hn | Hn].
    + rewrite skipn_app in Hl.
      replace (n - length t)%nat with 0%nat in Hl by lia. simpl in Hl.
      now apply lstrip_nil_inv in Hl.
    + apply skipn_all2. rewrite length_app. simpl. lia.
Qed.

End StringFacts.

(** ** The typing engine *)

Section EngineFacts.

Context {char : Type} `{Alphabet char}.

Local Abbreviation SpeechResult := (@SpeechResult char).
Local Abbreviation TypeState := (@TypeState char).
Local Abbreviation World := (@World char).
Local Abbreviation Response := (@Response char).

Lemma strip_nil : strip (@nil char) = [].
Proof. reflexivity. Qed.

Lemma candidate_nonempty (result : SpeechResult) :
  nonempty (candidate result) = true ->
  nonempty (text (transcript result)) = true.
Proof.
  unfold candidate. destruct (text (transcript result)); [|reflexivity].
  rewrite strip_nil. discriminate.
Qed.

Lemma should_type_iff (result : SpeechResult) (state : TypeState) (w : World) :
  should_type result state w = true <-> commit_decision result state w.
Proof.
  unfold should_type, commit_decision, time_time.
  rewrite orb_true_iff, andb_true_iff, geb_true_iff, gtb_true_iff.
  reflexivity.
Qed.

Lemma should_type_final (result : SpeechResult) (state : TypeState) (w : World) :
  is_final (transcript result) = true -> should_type result state w = true.
Proof. intro Hf. unfold should_type. now rewrite Hf. Qed.

(** One turn of the loop on a result with text. *)
Lemma handle_result_text (result : SpeechResult) (state : TypeState) (w : World) :
  nonempty (text (transcript result)) = true ->
  handle_result result state w =
  end_of_turn result
    (if should_type result state w then commit result state w else (state, w)).
Proof.
  intro Hne. unfold handle_result, end_of_turn, debug_print. rewrite Hne. simpl.
  destruct (should_type result state w); [destruct (commit result state w)|];
    reflexivity.
Qed.

(** The commit when the diff leaves something to type, and when not. *)
Lemma commit_types (result : SpeechResult) (state : TypeState) (w : World) :
  nonempty (text_to_type (candidate result) (last_typed_text state)) = true ->
  commit result state w =
  ({| last_type_time := now w; last_typed_text := candidate result |},
   keyboard_write
     (text_to_type (candidate result) (last_typed_text state) ++ [space])
     (set_last_speech_time (now w) w)).
Proof.
  intro Hne. unfold commit, candidate in *. rewrite Hne. reflexivity.
Qed.

Lemma commit_silent (result : SpeechResult) (state : TypeState) (w : World) :
  nonempty (text_to_type (candidate result) (last_typed_text state)) = false ->
  commit result state w = (state, set_last_speech_time (now w) w).
Proof.
  intro Hne. unfold commit, candidate in *. rewrite Hne. reflexivity.
Qed.

Lemma commit_exit_event (result : SpeechResult) (state : TypeState) (w : World) :
  exit_event (snd (commit result state w)) = exit_event w.
Proof.
  unfold commit.
  destruct (nonempty (text_to_type _ _)); reflexivity.
Qed.

Lemma handle_result_exit_event (result : SpeechResult) (state : TypeState)
      (w : World) :
  exit_event (snd (handle_result result state w)) = exit_event w.
Proof.
  unfold handle_result, debug_print. simpl.
  destruct (nonempty (text (transcript result))); [|reflexivity].
  destruct (should_type result state w).
  - pose proof (commit_exit_event result state w) as Hc.
    destruct (commit result state w) as [s' w']. simpl in Hc.
    destruct (is_final (transcript result)); exact Hc.
  - destruct (is_final (transcript result)); reflexivity.
Qed.

Lemma handle_results_loop_cons (result : SpeechResult)
      (rest : list SpeechResult) (state : TypeState) (w : World) :
  exit_event w = false ->
  handle_results_loop (result :: rest) state w =
  handle_results_loop rest
    (fst (handle_result result state (set_now (timestamp result) w)))
    (snd (handle_result result state (set_now (timestamp result) w))).
Proof.
  intro Hx. simpl. rewrite Hx.
  destruct (handle_result result state (set_now (timestamp result) w)).
  reflexivity.
Qed.

(** The diff against a baseline that the candidate extends. *)
Lemma text_to_type_extension (cur last : list char) :
  ci_prefixb last cur = true ->
  text_to_type cur last = lstrip (skipn (length last) cur).
Proof.
  intro Hp. unfold text_to_type.
  now rewrite (common_prefix_len_prefix_r _ _ Hp).
Qed.

(** The diff of a candidate against a baseline that it only shortens. *)
Lemma text_to_type_shorter (cur last : list char) :
  ci_prefixb cur last = true -> text_to_type cur last = [].
Proof.
  intro Hp. unfold text_to_type.
  rewrite (common_prefix_len_prefix_l _ _ Hp), skipn_all. reflexivity.
Qed.

(** C10. A result whose hypothesis text is empty changes neither the typing
    state nor the world, whatever its stability and finality: in
    particular a final hypothesis without text does not reset the typing
    state.  The loop then goes on to the next result (or stops, when the
    shutdown flag is set) with the state it had. *)
Theorem empty_text_is_skipped (t s : Q) (f : bool) (rest : list SpeechResult)
        (state : TypeState) (w : World) :
  let result := {| timestamp := t;
                   transcript := {| text := []; stability := s;
                                    is_final := f |} |} in
  handle_result result state w = (state, w) /\
  handle_results_loop (result :: rest) state w =
  if exit_event w then (state, set_now t w)
  else handle_results_loop rest state (set_now t w).
Proof. split; reflexivity. Qed.

(** C4. For a hypothesis with text, the engine commits exactly when the
    hypothesis is final, or at least [TYPE_INTERVAL] has passed since the
    last commit and the stability is above the threshold: then the turn
    is the commit followed by the end-of-utterance reset of a final,
    otherwise the turn changes nothing.  A final hypothesis is committed
    whatever the clock and its stability, stability 0 included. *)
Theorem commit_decision_exact (result : SpeechResult) (state : TypeState)
        (w : World) :
  nonempty (text (transcript result)) = true ->
  (should_type result state w = true <-> commit_decision result state w) /\
  (commit_decision result state w ->
   handle_result result state w = end_of_turn result (commit result state w)) /\
  (~ commit_decision result state w ->
   handle_result result state w = (state, w)) /\
  (is_final (transcript result) = true ->
   handle_result result state w = end_of_turn result (commit result state w)).
Proof.
  intro Hne. rewrite (handle_result_text _ _ _ Hne).
  split; [apply should_type_iff|]. repeat split.
  - intro Hd. apply should_type_iff in Hd. now rewrite Hd.
  - intro Hd. destruct (should_type result state w) eqn:E.
    + apply should_type_iff in E. contradiction.
    + unfold end_of_turn. destruct (is_final (transcript result)) eqn:Ef.
      * exfalso. apply Hd. now left.
      * reflexivity.
  - intro Hf. now rewrite (should_type_final _ state w Hf).
Qed.

(** C8, as the code has it.  The last-activity timestamp is set to the
    current time by every result with text for which the commit decision
    holds, whether or not the diff leaves a suffix to type; a result
    without text or a throttled one leaves it as it was, and so does a
    turn that finds the shutdown flag set. *)
Theorem activity_follows_decision (result : SpeechResult)
        (rest : list SpeechResult) (state : TypeState) (w : World) :
  last_speech_time (snd (handle_result result state w)) =
  (if nonempty (text (transcript result)) && should_type result state w
   then now w else last_speech_time w) /\
  (exit_event w = true ->
   last_speech_time (snd (handle_results_loop (result :: rest) state w))
   = last_speech_time w).
Proof.
  split.
  - unfold handle_result, debug_print. simpl.
    destruct (nonempty (text (transcript result))); [|reflexivity]. simpl.
    destruct (should_type result state w).
    + unfold commit.
      destruct (nonempty (text_to_type _ _));
        destruct (is_final (transcript result)); reflexivity.
    + destruct (is_final (transcript result)); reflexivity.
  - intro Hx. simpl. rewrite Hx. reflexivity.
Qed.

(** C2, as the code has it.  A candidate that is a strict case-insensitive
    prefix of the committed text is committed without typing anything and
    without touching the typing state: the baseline stays the longer text
    and the last commit time stays as it was.  Only the last-activity
    timestamp moves; a final hypothesis then resets the state as every
    final does. *)
Theorem shorter_candidate_keeps_baseline (result : SpeechResult)
        (state : TypeState) (w : World) :
  ci_prefixb (candidate result) (last_typed_text state) = true ->
  (length (candidate result) < length (last_typed_text state))%nat ->
  commit result state w = (state, set_last_speech_time (now w) w) /\
  keyboard (snd (commit result state w)) = keyboard w /\
  last_typed_text (fst (commit result state w)) = last_typed_text state /\
  (nonempty (text (transcript result)) = true ->
   should_type result state w = true ->
   handle_result result state w =
   end_of_turn result (state, set_last_speech_time (now w) w)).
Proof.
  intros Hp _.
  assert (Hc : commit result state w = (state, set_last_speech_time (now w) w)).
  { apply commit_silent. now rewrite (text_to_type_shorter _ _ Hp). }
  rewrite Hc. repeat split.
  intros Hne Hs. now rewrite (handle_result_text _ _ _ Hne), Hs, Hc.
Qed.

(** C3, as the code has it.  Of two consecutive finals with the same text,
    the first leaves an empty baseline behind, since the typing state is
    reset at the end of its turn; the second is therefore diffed against
    the empty text and types the whole trimmed text again, followed by a
    space. *)
Theorem identical_finals_retype (r1 r2 : SpeechResult) (state : TypeState)
        (w : World) :
  exit_event w = false ->
  is_final (transcript r1) = true ->
  is_final (transcript r2) = true ->
  text (transcript r1) = text (transcript r2) ->
  nonempty (candidate r2) = true ->
  let sw1 := handle_results_loop [r1] state w in
  last_typed_text (fst sw1) = [] /\
  keyboard (snd (handle_results_loop [r2] (fst sw1) (snd sw1)))
  = keyboard (snd sw1) ++ [candidate r2 ++ [space]].
Proof.
  intros Hx Hf1 Hf2 Ht Hc2 sw1.
  assert (Hne2 : nonempty (text (transcript r2)) = true)
    by now apply candidate_nonempty.
  assert (Hne1 : nonempty (text (transcript r1)) = true) by now rewrite Ht.
  assert (H1 : last_typed_text (fst sw1) = [] /\ exit_event (snd sw1) = false).
  { subst sw1. rewrite (handle_results_loop_cons _ _ _ _ Hx). simpl.
    rewrite handle_result_exit_event. split; [|exact Hx].
    rewrite (handle_result_text _ _ _ Hne1). unfold end_of_turn.
    now rewrite Hf1. }
  destruct H1 as [Hb Hx1]. split; [exact Hb|].
  rewrite (handle_results_loop_cons _ _ _ _ Hx1). simpl.
  rewrite (handle_result_text _ _ _ Hne2), (should_type_final _ _ _ Hf2).
  assert (Hd : text_to_type (candidate r2) (last_typed_text (fst sw1))
               = candidate r2).
  { rewrite Hb. unfold text_to_type. rewrite common_prefix_len_nil_r. simpl.
    apply lstrip_strip. }
  rewrite commit_types by now rewrite Hd.
  rewrite Hd. unfold end_of_turn. rewrite Hf2. reflexivity.
Qed.

(** C9. While the shutdown flag is not set the generator yields one result
    for each response, in order: the empty hypothesis if the response has
    no results or its first result has no alternatives, and otherwise the
    text of the first alternative of the first result with that result's
    finality and stability.  The engine passes over the empty hypothesis
    without changing anything. *)
Theorem normalize_one_result_each (responses : list (Q * Response)) (w : World) :
  exit_event w = false ->
  process_responses responses w
  = map (fun tr => normalize (fst tr) (snd tr)) responses /\
  forall (t : Q) (response : Response),
    match results response with
    | [] => normalize t response = mkSpeechResult t Transcript_default
    | result :: _ =>
        match alternatives result with
        | [] => normalize t response = mkSpeechResult t Transcript_default
        | alt :: _ =>
            normalize t response =
            mkSpeechResult t
              (mkTranscript (alt_transcript alt) (result_stability result)
                            (result_is_final result))
        end
    end /\
    forall (state : TypeState) (w' : World),
      handle_result (mkSpeechResult t Transcript_default) state w' = (state, w').
Proof.
  intro Hx. split.
  - induction responses as [|[t response] rest IH]; simpl; [reflexivity|].
    rewrite Hx, IH. reflexivity.
  - intros t response. split; [|reflexivity].
    unfold normalize. destruct (results response) as [|result ?];
      [reflexivity|]. destruct (alternatives result); reflexivity.
Qed.

(** ** Prefix diffs along one utterance *)

Lemma last_cons_default (c p : list char) (cs : list (list char)) :
  last (c :: cs) p = last cs c.
Proof.
  revert c p. induction cs as [|c' cs IH]; intros c p; [reflexivity|].
  change (last (c :: c' :: cs) p) with (last (c' :: cs) p).
  now rewrite !IH.
Qed.

Lemma ci_equal_refl (a : list char) : ci_equal a a.
Proof. induction a; constructor; auto. Qed.

Lemma ci_equal_trans (a b c : list char) :
  ci_equal a b -> ci_equal b c -> ci_equal a c.
Proof.
  intro Hab. revert c. induction Hab as [|x y a b Hxy Hab IH]; intros c Hbc;
    inversion Hbc; subst; constructor; [congruence | now apply IH].
Qed.

Lemma ci_prefixb_split (p c : list char) :
  ci_prefixb p c = true -> ci_equal (p ++ skipn (length p) c) c.
Proof.
  revert c. induction p as [|x p IH]; intros [|y c] Hp; simpl in *;
    try discriminate; try apply ci_equal_refl.
  apply andb_true_iff in Hp. destruct Hp as [Hxy Hp].
  constructor; [now apply ci_eqb_true_iff | now apply IH].
Qed.

(** The increments of a chain of candidates tile the last candidate. *)
Lemma increments_tile (p : list char) (cs : list (list char)) :
  ci_chain p cs = true -> ci_equal (p ++ concat (increments p cs)) (last cs p).
Proof.
  revert p. induction cs as [|c cs IH]; intros p Hc; simpl increments.
  - simpl. rewrite app_nil_r. apply ci_equal_refl.
  - simpl in Hc. apply andb_true_iff in Hc. destruct Hc as [Hp Hc].
    rewrite last_cons_default. simpl concat. rewrite app_assoc.
    apply ci_equal_trans with (c ++ concat (increments c cs)); [|now apply IH].
    apply Forall2_app; [now apply ci_prefixb_split | apply ci_equal_refl].
Qed.

Lemma increments_tile_exact (p : list char) (cs : list (list char)) :
  exact_chain p cs -> p ++ concat (increments p cs) = last cs p.
Proof.
  revert p. induction cs as [|c cs IH]; intros p Hc; simpl increments.
  - simpl. apply app_nil_r.
  - destruct Hc as [Hp Hc]. rewrite last_cons_default. simpl concat.
    rewrite app_assoc. rewrite <- Hp at 1. rewrite firstn_skipn. now apply IH.
Qed.

Lemma injected_cons (d : list char) (incs : list (list char)) :
  injected (d :: incs) = injected [d] ++ injected incs.
Proof. unfold injected. simpl. destruct (nonempty d); reflexivity. Qed.

(** One commit against a baseline that agrees up to case with the candidate
    before: what it types, and the baseline it leaves. *)
Lemma commit_increment (result : SpeechResult) (state : TypeState) (w : World)
      (p : list char) :
  ci_prefixb (last_typed_text state) p = true ->
  length (last_typed_text state) = length p ->
  ci_prefixb p (candidate result) = true ->
  keyboard (snd (commit result state w))
  = keyboard w ++ injected [skipn (length p) (candidate result)] /\
  ci_prefixb (last_typed_text (fst (commit result state w))) (candidate result)
  = true /\
  length (last_typed_text (fst (commit result state w)))
  = length (candidate result) /\
  exit_event (snd (commit result state w)) = exit_event w.
Proof.
  intros Hb Hl Hp.
  assert (Hbc : ci_prefixb (last_typed_text state) (candidate result) = true)
    by (eapply ci_prefixb_trans; eassumption).
  pose proof (text_to_type_extension _ _ Hbc) as Hd. rewrite Hl in Hd.
  destruct (nonempty (text_to_type (candidate result) (last_typed_text state)))
    eqn:E.
  - rewrite (commit_types _ _ _ E). simpl. rewrite Hd in *.
    unfold injected. simpl.
    destruct (skipn (length p) (candidate result)) eqn:Ed; [discriminate|].
    simpl. repeat split. apply ci_prefixb_refl.
  - rewrite (commit_silent _ _ _ E). simpl. rewrite Hd in E.
    assert (Hnil : skipn (length p) (candidate result) = []).
    { apply lstrip_skipn_strip.
      destruct (lstrip (skipn (length p) (strip (text (transcript result)))))
        eqn:El; [reflexivity|].
      unfold candidate in E. rewrite El in E. discriminate. }
    rewrite Hnil. unfold injected. simpl. rewrite app_nil_r.
    repeat split; [exact Hbc|].
    apply ci_prefixb_length in Hp.
    assert (length (skipn (length p) (candidate result)) = 0%nat)
      by now rewrite Hnil.
    rewrite length_skipn in *. lia.
Qed.

Lemma end_of_turn_keyboard (result : SpeechResult) (sw : TypeState * World) :
  keyboard (snd (end_of_turn result sw)) = keyboard (snd sw).
Proof. unfold end_of_turn. destruct (is_final (transcript result)); reflexivity. Qed.

Lemma prefix_diff_run (rs : list SpeechResult) :
  forall (state : TypeState) (w : World) (p : list char),
    exit_event w = false ->
    one_utterance rs = true ->
    all_committed rs state w ->
    ci_prefixb (last_typed_text state) p = true ->
    length (last_typed_text state) = length p ->
    ci_chain p (map candidate rs) = true ->
    keyboard (snd (handle_results_loop rs state w))
    = keyboard w ++ injected (increments p (map candidate rs)).
Proof.
  induction rs as [|r rest IH]; intros state w p Hx Hu Hall Hb Hl Hc.
  - simpl. now rewrite app_nil_r.
  - destruct Hall as (Hne & Hs & Hall).
    simpl map in *. simpl ci_chain in Hc. apply andb_true_iff in Hc.
    destruct Hc as [Hp Hc]. simpl increments. rewrite injected_cons.
    rewrite (handle_results_loop_cons _ _ _ _ Hx).
    rewrite (handle_result_text _ _ _ Hne), Hs in *.
    destruct (commit_increment r state (set_now (timestamp r) w) p Hb Hl Hp)
      as (Hk & Hb' & Hl' & Hx').
    destruct rest as [|r' rest'].
    + cbn [handle_results_loop increments map snd].
      rewrite end_of_turn_keyboard, Hk. simpl. now rewrite app_nil_r.
    + simpl one_utterance in Hu. apply andb_true_iff in Hu.
      destruct Hu as [Hnf Hu]. apply negb_true_iff in Hnf.
      unfold end_of_turn in *. rewrite Hnf in *.
      rewrite (IH _ _ (candidate r)); try assumption.
      * rewrite Hk. now rewrite app_assoc.
      * now rewrite Hx'.
Qed.

(** C1. Along one utterance in which every result is committed and every
    candidate extends the one before it up to case, starting from an empty
    baseline, the engine types, for each candidate in turn, exactly what
    that candidate adds behind the previous one: the added part as that
    candidate spells it, without its leading whitespace and followed by
    one space, and nothing when nothing is added.  The added parts taken
    together are the last candidate up to case, position for position, so
    no position of the text is typed twice; when the candidates extend one
    another letter for letter, they are the last candidate itself. *)
Theorem prefix_diff_injects_increments (rs : list SpeechResult)
        (state : TypeState) (w : World) :
  exit_event w = false ->
  last_typed_text state = [] ->
  one_utterance rs = true ->
  all_committed rs state w ->
  ci_chain [] (map candidate rs) = true ->
  let cs := map candidate rs in
  keyboard (snd (handle_results_loop rs state w))
  = keyboard w ++ map (fun d => lstrip d ++ [space])
                      (filter nonempty (increments [] cs)) /\
  ci_equal (concat (increments [] cs)) (last cs []) /\
  (exact_chain [] cs -> concat (increments [] cs) = last cs []).
Proof.
  intros Hx Hb Hu Hall Hc cs. repeat split.
  - apply (prefix_diff_run rs state w []); try assumption; now rewrite Hb.
  - apply (increments_tile [] cs Hc).
  - intro He. apply (increments_tile_exact [] cs He).
Qed.

End EngineFacts.

(** ** The liveness monitor *)

Section MonitorFacts.

Context {char : Type} `{Alphabet char}.

Local Abbreviation World := (@World char).

Lemma monitor_activity_not_early (fuel : nat) :
  forall w : World,
    exit_event w = false ->
    exit_event (monitor_activity fuel w) = true ->
    SILENCE_THRESHOLD < now (monitor_activity fuel w) - last_speech_time w.
Proof.
  induction fuel as [|fuel IH]; intros w Hx Hset; simpl in *; [congruence|].
  rewrite Hx in *.
  destruct (gtb (time_time w - last_speech_time w) SILENCE_THRESHOLD) eqn:E.
  - apply gtb_true_iff in E. exact E.
  - apply (IH (time_sleep POLL_INTERVAL w)); [exact Hx | exact Hset].
Qed.

Lemma monitor_activity_fires (n : nat) :
  forall (w : World) (fuel : nat),
    exit_event w = false ->
    now w - last_speech_time w <= SILENCE_THRESHOLD + POLL_INTERVAL ->
    SILENCE_THRESHOLD
    < now w - last_speech_time w + inject_Z (Z.of_nat n) * POLL_INTERVAL ->
    (n < fuel)%nat ->
    exit_event (monitor_activity fuel w) = true /\
    now (monitor_activity fuel w) - last_speech_time w
    <= SILENCE_THRESHOLD + POLL_INTERVAL /\
    keyboard (monitor_activity fuel w) = keyboard w.
Proof.
  unfold SILENCE_THRESHOLD, POLL_INTERVAL.
  induction n as [|n IH]; intros w fuel Hx Hup Hlow Hfuel;
    (destruct fuel as [|fuel]; [lia|]); simpl; rewrite Hx;
    destruct (gtb (time_time w - last_speech_time w) SILENCE_THRESHOLD) eqn:E;
    try (now repeat split).
  - exfalso. destruct (Qlt_le_dec 3 (now w - last_speech_time w)) as [Hlt|Hle].
    + apply (gtb_true_iff (now w - last_speech_time w) 3) in Hlt.
      unfold time_time, SILENCE_THRESHOLD in E. congruence.
    + change (inject_Z (Z.of_nat 0)) with 0 in Hlow. lra.
  - assert (Hle : now w - last_speech_time w <= 3).
    { destruct (Qlt_le_dec 3 (now w - last_speech_time w)) as [Hlt|Hle];
        [|exact Hle].
      apply (gtb_true_iff (now w - last_speech_time w) 3) in Hlt.
      unfold time_time, SILENCE_THRESHOLD in E. congruence. }
    assert (Hs : inject_Z (Z.of_nat (S n)) == inject_Z (Z.of_nat n) + 1).
    { rewrite Nat2Z.inj_succ. unfold Z.succ. rewrite inject_Z_plus.
      reflexivity. }
    rewrite Hs in Hlow.
    destruct (IH (time_sleep (3 # 10) w) fuel) as (H1 & H2 & H3);
      simpl; try assumption; try lia; try lra.
    repeat split; assumption.
Qed.

(** C7. With the last-activity timestamp left at its initial value and the
    first poll no later than [SILENCE_THRESHOLD] after it, the monitor,
    sleeping [POLL_INTERVAL] between polls, sets the shutdown flag within
    twelve polls, at a time more than [SILENCE_THRESHOLD] and at most
    [SILENCE_THRESHOLD + POLL_INTERVAL] after that timestamp.  However long
    it runs it never sets the flag at a time that does not exceed the
    threshold, and one poll sets the flag exactly when the time since the
    timestamp exceeds the threshold. *)
Theorem silence_shutdown (w : World) (fuel : nat) :
  exit_event w = false ->
  last_speech_time w <= now w ->
  now w <= last_speech_time w + SILENCE_THRESHOLD ->
  (12 <= fuel)%nat ->
  let w' := monitor_activity fuel w in
  exit_event w' = true /\
  SILENCE_THRESHOLD < now w' - last_speech_time w /\
  now w' - last_speech_time w <= SILENCE_THRESHOLD + POLL_INTERVAL /\
  keyboard w' = keyboard w /\
  (forall n : nat,
      exit_event (monitor_activity n w) = true ->
      SILENCE_THRESHOLD < now (monitor_activity n w) - last_speech_time w) /\
  (exit_event (monitor_activity 1 w) = true <->
   SILENCE_THRESHOLD < now w - last_speech_time w).
Proof.
  intros Hx Hge Hle Hfuel w'.
  destruct (monitor_activity_fires 11 w fuel) as (H1 & H2 & H3);
    try assumption; try lia.
  { unfold SILENCE_THRESHOLD, POLL_INTERVAL in *. lra. }
  { unfold SILENCE_THRESHOLD, POLL_INTERVAL in *.
    change (inject_Z (Z.of_nat 11)) with 11. lra. }
  repeat split; try assumption.
  - now apply monitor_activity_not_early.
  - intros n. now apply monitor_activity_not_early.
  - simpl. rewrite Hx. unfold time_time.
    destruct (gtb (now w - last_speech_time w) SILENCE_THRESHOLD) eqn:E.
    + intros _. now apply gtb_true_iff.
    + simpl. congruence.
  - intro Hlt. simpl. rewrite Hx. unfold time_time.
    apply gtb_true_iff in Hlt. now rewrite Hlt.
Qed.

End MonitorFacts.

(** ** The threads together *)

Section ThreadFacts.

Context {char : Type} `{Alphabet char}.

Local Abbreviation System := (@System char).
Local Abbreviation Event := (@Event char).

(** The flag is never unset, and a turn that finds it set types nothing. *)
Lemma step_after_shutdown (e : Event) (s : System) :
  exit_event (world s) = true ->
  exit_event (world (step e s)) = true /\
  keyboard (world (step e s)) = keyboard (world s).
Proof.
  intro Hx. destruct e; simpl.
  - destruct (typing s); [|now split]. simpl. rewrite Hx. now split.
  - now split.
  - rewrite Hx, andb_false_r. now split.
  - destruct (monitoring s); [|now split]. simpl. rewrite Hx. now split.
  - now split.
  - now split.
Qed.

(** A closed buffer stays closed and takes no frame. *)
Lemma step_after_close (e : Event) (s : System) :
  closed (mic s) = true ->
  closed (mic (step e s)) = true /\ buff (mic (step e s)) = buff (mic s).
Proof.
  intro Hc. destruct e; simpl.
  - destruct (typing s); [|now split]. simpl.
    destruct (exit_event (world s)); [now split|].
    destruct (handle_result _ _ _). now split.
  - unfold fill_buffer. rewrite Hc. now split.
  - rewrite Hc. now split.
  - destruct (monitoring s); [|now split]. simpl.
    destruct (exit_event (world s)); [now split|].
    destruct (gtb _ _); now split.
  - now split.
  - unfold mic_exit. rewrite Hc. now split.
Qed.

(** C6, as the code has it.  Once the shutdown flag is set it stays set and
    no turn of any loop types anything.  The capture callback does not
    look at the flag: it enqueues every frame for as long as the buffer
    is not closed, flag or no flag, and nothing once the buffer is
    closed. *)
Theorem shutdown_stops_typing_only (es : list Event) (s : System) :
  (exit_event (world s) = true ->
   exit_event (world (run es s)) = true /\
   keyboard (world (run es s)) = keyboard (world s)) /\
  (closed (mic s) = true ->
   closed (mic (run es s)) = true /\ buff (mic (run es s)) = buff (mic s)) /\
  (forall in_data : AudioFrame,
      closed (mic s) = false ->
      buff (mic (step (Capture in_data) s)) = buff (mic s) ++ [in_data]).
Proof.
  split; [|split].
  - revert s. induction es as [|e es IH]; intros s Hx; simpl; [now split|].
    destruct (step_after_shutdown e s Hx) as [Hx' Hk].
    rewrite <- Hk. now apply IH.
  - revert s. induction es as [|e es IH]; intros s Hc; simpl; [now split|].
    destruct (step_after_close e s Hc) as [Hc' Hb].
    rewrite <- Hb. now apply IH.
  - intros in_data Hc. simpl. unfold fill_buffer. now rewrite Hc.
Qed.

End ThreadFacts.

(** ** Concrete sessions *)

(** C5, as the code has it.  When the typing state was made at least
    [TYPE_INTERVAL] before the first hypothesis arrives at 0, the three
    hypotheses of the example make the engine type "hell ", "o world "
    and ". ", in that order. *)
Theorem example_types_three_suffixes (w : @World ascii) :
  exit_event w = false ->
  keyboard w = [] ->
  now w <= 0 - TYPE_INTERVAL ->
  keyboard (snd (handle_results example_results w))
  = [py "hell "; py "o world "; py ". "].
Proof.
  intros Hx Hk Ht. unfold handle_results, example_results.
  rewrite (handle_results_loop_cons _ _ _ _ Hx).
  rewrite handle_result_text by reflexivity.
  assert (Hs : should_type (hypothesis 0 "hell" (9 # 10) false)
                 (TypeState_fresh w)
                 (set_now (timestamp (hypothesis 0 "hell" (9 # 10) false)) w)
               = true).
  { apply should_type_iff. right. split.
    - change (1 <= 0 - now w). change (now w <= 0 - 1) in Ht. lra.
    - reflexivity. }
  rewrite Hs. destruct w as [n x l k o]. simpl in Hx, Hk. subst x k.
  vm_compute. reflexivity.
Qed.

(** The example itself, with the typing state made at the moment the first
    hypothesis arrives: "hell" is throttled, and the engine types
    "hello world " and ". ". *)
Lemma example_claim_fails : ~ example_claim (world_at 0).
Proof.
  intro Hc. specialize (Hc eq_refl eq_refl (Qle_refl 0)).
  vm_compute in Hc. discriminate Hc.
Qed.

Lemma example_types_three_suffixes_witness :
  keyboard (snd (handle_results example_results (world_at (-1))))
  = [py "hell "; py "o world "; py ". "].
Proof.
  apply (example_types_three_suffixes (world_at (-1))).
  - reflexivity.
  - reflexivity.
  - vm_compute. discriminate.
Defined.

Lemma prefix_diff_injects_increments_witness :
  keyboard (snd (handle_results_loop example_results
                   (TypeState_fresh (world_at (-1))) (world_at (-1))))
  = [py "hell "; py "o world "; py ". "] /\
  ci_equal (py "hell" ++ py "o world" ++ py ".") (py "hello world.").
Proof.
  destruct (prefix_diff_injects_increments example_results
              (TypeState_fresh (world_at (-1))) (world_at (-1)))
    as (Hk & He & _).
  - reflexivity.
  - reflexivity.
  - reflexivity.
  - vm_compute. repeat split.
  - reflexivity.
  - split; [exact Hk | exact He].
Defined.

(** "hello" is committed and the recogniser shortens its guess to "hell":
    nothing is typed, and the baseline is still "hello". *)
Lemma no_retype_claim_fails :
  ~ no_retype_claim (hypothesis 2 "hell" (9 # 10) false)
      {| last_type_time := 0; last_typed_text := py "hello" |}
      (world_at 2).
Proof.
  intro Hc. destruct Hc as [_ Hb].
  - reflexivity.
  - vm_compute. lia.
  - vm_compute in Hb. discriminate Hb.
Qed.

Lemma shorter_candidate_keeps_baseline_witness :
  keyboard (snd (commit (hypothesis 2 "hell" (9 # 10) false)
                   {| last_type_time := 0; last_typed_text := py "hello" |}
                   (world_at 2))) = [] /\
  last_typed_text (fst (commit (hypothesis 2 "hell" (9 # 10) false)
                          {| last_type_time := 0;
                             last_typed_text := py "hello" |}
                          (world_at 2))) = py "hello".
Proof.
  destruct (shorter_candidate_keeps_baseline
              (hypothesis 2 "hell" (9 # 10) false)
              {| last_type_time := 0; last_typed_text := py "hello" |}
              (world_at 2)) as (_ & Hk & Hb & _).
  - reflexivity.
  - vm_compute. lia.
  - split; [exact Hk | exact Hb].
Defined.

(** Two finals "hi" in a row: "hi " is typed twice. *)
Lemma identical_finals_claim_fails :
  ~ identical_finals_claim (hypothesis 1 "hi" 0 true)
      (hypothesis 2 "hi" 0 true) (TypeState_fresh (world_at 0)) (world_at 0).
Proof.
  intro Hc. specialize (Hc eq_refl eq_refl eq_refl eq_refl).
  vm_compute in Hc. discriminate Hc.
Qed.

Lemma identical_finals_retype_witness :
  keyboard (snd (handle_results_loop
                   [hypothesis 1 "hi" 0 true; hypothesis 2 "hi" 0 true]
                   (TypeState_fresh (world_at 0)) (world_at 0)))
  = [py "hi "; py "hi "].
Proof.
  destruct (identical_finals_retype (hypothesis 1 "hi" 0 true)
              (hypothesis 2 "hi" 0 true) (TypeState_fresh (world_at 0))
              (world_at 0)) as (_ & Hk);
    [reflexivity | reflexivity | reflexivity | reflexivity | reflexivity | ].
  exact Hk.
Defined.

Lemma commit_decision_exact_witness :
  handle_result (hypothesis 0 "ok" 0 true) (TypeState_fresh (world_at 0))
    (world_at 0)
  = ({| last_type_time := 0; last_typed_text := [] |},
     keyboard_write (py "ok ") (world_at 0)).
Proof.
  destruct (commit_decision_exact (hypothesis 0 "ok" 0 true)
              (TypeState_fresh (world_at 0)) (world_at 0))
    as (_ & _ & _ & Hf); [reflexivity|].
  rewrite Hf; reflexivity.
Defined.

(** "hi" is committed again five seconds later: nothing is typed, and the
    last-activity timestamp moves from 0 to 5. *)
Lemma activity_frame_claim_fails :
  ~ activity_frame_claim (hypothesis 5 "hi" (9 # 10) false)
      {| last_type_time := 0; last_typed_text := py "hi" |}
      (set_now 5 (world_at 0)).
Proof.
  intro Hc. specialize (Hc eq_refl). vm_compute in Hc. discriminate Hc.
Qed.

Lemma activity_follows_decision_witness :
  last_speech_time
    (snd (handle_results_loop [hypothesis 5 "hi" (9 # 10) true] 
            (TypeState_fresh (world_at 0)) (exit_event_set (world_at 0))))
  = 0.
Proof.
  destruct (activity_follows_decision (hypothesis 5 "hi" (9 # 10) true) []
              (TypeState_fresh (world_at 0)) (exit_event_set (world_at 0)))
    as (_ & Hx).
  apply Hx. reflexivity.
Defined.

Lemma normalize_one_result_each_witness :
  process_responses
    [(0, mkResponse []);
     (1, mkResponse [mkResult [mkAlternative (py "hi")] true (1 # 2)])]
    (world_at 0)
  = [mkSpeechResult 0 Transcript_default; hypothesis 1 "hi" (1 # 2) true].
Proof.
  destruct (normalize_one_result_each
              [(0, mkResponse []);
               (1, mkResponse [mkResult [mkAlternative (py "hi")] true (1 # 2)])]
              (world_at 0)) as (Hp & _); [reflexivity|].
  rewrite Hp. reflexivity.
Defined.

Lemma silence_shutdown_witness :
  exit_event (monitor_activity 12 (world_at 0)) = true /\
  SILENCE_THRESHOLD < now (monitor_activity 12 (world_at 0)) - 0 /\
  now (monitor_activity 12 (world_at 0)) - 0
  <= SILENCE_THRESHOLD + POLL_INTERVAL.
Proof.
  destruct (silence_shutdown (world_at 0) 12) as (H1 & H2 & H3 & _).
  - reflexivity.
  - vm_compute. discriminate.
  - vm_compute. discriminate.
  - lia.
  - repeat split; assumption.
Defined.

(** The flag is set by a signal while the buffer is open: the next captured
    frame is enqueued all the same. *)
Lemma shutdown_claim_fails :
  ~ shutdown_claim [Signal] [Capture [Byte.x00]] (@start ascii 0).
Proof.
  intro Hc. destruct (Hc eq_refl) as [_ Hb]. vm_compute in Hb.
  discriminate Hb.
Qed.

Lemma shutdown_stops_typing_only_witness :
  keyboard (world (run [Deliver 1 (mkResponse
                                     [mkResult [mkAlternative (py "hi")]
                                               true (1 # 2)]);
                        Capture [Byte.x00]]
                       (run [Signal; Close] (@start ascii 0)))) = [] /\
  buff (mic (run [Deliver 1 (mkResponse
                               [mkResult [mkAlternative (py "hi")]
                                         true (1 # 2)]);
                  Capture [Byte.x00]]
                 (run [Signal; Close] (@start ascii 0)))) = [].
Proof.
  destruct (shutdown_stops_typing_only
              [Deliver 1 (mkResponse
                            [mkResult [mkAlternative (py "hi")] true (1 # 2)]);
               Capture [Byte.x00]]
              (run [Signal; Close] (@start ascii 0))) as (Hx & Hc & _).
  destruct (Hx eq_refl) as [_ Hk]. destruct (Hc eq_refl) as [_ Hb].
  split; [exact Hk | exact Hb].
Defined.

(** * Further properties of the program *)

Section DiffFacts.

Context {char : Type} `{Alphabet char}.

Local Abbreviation SpeechResult := (@SpeechResult char).
Local Abbreviation TypeState := (@TypeState char).
Local Abbreviation World := (@World char).

(** X1. The diff loop returns the length of the longest common prefix up to
    case: it is no longer than either string, the two strings agree up to
    case on that many characters, and where both go on they differ, up
    to case, in the very next character. *)
Theorem common_prefix_len_longest (a b : list char) :
  let k := common_prefix_len a b in
  (k <= length a)%nat /\ (k <= length b)%nat /\
  ci_equal (firstn k a) (firstn k b) /\
  (forall x y : char,
      nth_error a k = Some x -> nth_error b k = Some y -> lower x <> lower y).
Proof.
  cbv zeta. revert b. induction a as [|x a IH]; intros [|y b].
  - rewrite common_prefix_len_nil_r. simpl.
    split; [lia|]. split; [lia|]. split; [constructor|].
    intros x y E. discriminate E.
  - rewrite common_prefix_len_nil_l. simpl.
    split; [lia|]. split; [lia|]. split; [constructor|].
    intros x' y' E. discriminate E.
  - rewrite common_prefix_len_nil_r. simpl.
    split; [lia|]. split; [lia|]. split; [constructor|].
    intros x' y' _ E. discriminate E.
  - rewrite common_prefix_len_cons. destruct (ci_eqb x y) eqn:E.
    + destruct (IH b) as (Ha & Hb & He & Hn). simpl.
      split; [lia|]. split; [lia|]. split; [|exact Hn].
      constructor; [now apply ci_eqb_true_iff | exact He].
    + simpl. split; [lia|]. split; [lia|]. split; [constructor|].
      intros x' y' Hx Hy. injection Hx as <-. injection Hy as <-.
      intro Hl. apply ci_eqb_true_iff in Hl. congruence.
Qed.

Lemma lstrip_idem (s : list char) : lstrip (lstrip s) = lstrip s.
Proof.
  destruct (lstrip_head s) as [E | (c & t & E & Hc)]; rewrite E;
    [reflexivity | now apply lstrip_nonspace].
Qed.

Lemma rstrip_app_nonspace (x : list char) (c : char) :
  isspace c = false -> rstrip (x ++ [c]) = x ++ [c].
Proof.
  intro Hc. unfold rstrip. rewrite rev_app_distr. simpl. rewrite Hc.
  simpl. now rewrite rev_involutive.
Qed.

Lemma lstrip_all_space (s : list char) :
  forallb isspace s = true -> lstrip s = [].
Proof.
  induction s as [|c s IH]; simpl; [reflexivity|].
  intro Hs. apply andb_true_iff in Hs. destruct Hs as [Hc Hs].
  rewrite Hc. now apply IH.
Qed.

(** What the diff leaves of a trimmed candidate is trimmed itself. *)
Lemma text_to_type_trimmed (s last : list char) :
  strip (text_to_type (strip s) last) = text_to_type (strip s) last.
Proof.
  unfold text_to_type.
  generalize (common_prefix_len (strip s) last). intro k.
  unfold strip at 2 3. destruct (rstrip_last (lstrip s)) as [E | (t & c & E & Hc)];
    rewrite E.
  - now rewrite skipn_nil.
  - destruct (Nat.le_gt_cases k (length t)) as [Hk | Hk].
    + rewrite skipn_app. replace (k - length t)%nat with 0%nat by lia.
      simpl skipn. rewrite (lstrip_app_nonspace _ _ Hc).
      unfold strip. rewrite (lstrip_app_nonspace _ _ Hc), lstrip_idem.
      now apply rstrip_app_nonspace.
    + rewrite skipn_all2 by (rewrite length_app; simpl; lia). reflexivity.
Qed.

Lemma commit_writes (result : SpeechResult) (state : TypeState) (w : World) :
  exists typed : list (list char),
    keyboard (snd (commit result state w)) = keyboard w ++ typed /\
    Forall trimmed_then_space typed /\ (length typed <= 1)%nat.
Proof.
  destruct (nonempty (text_to_type (candidate result) (last_typed_text state)))
    eqn:E.
  - rewrite (commit_types _ _ _ E). simpl.
    exists [text_to_type (candidate result) (last_typed_text state) ++ [space]].
    repeat split; [|simpl; lia]. constructor; [|constructor].
    eexists. repeat split; [exact E|]. apply text_to_type_trimmed.
  - rewrite (commit_silent _ _ _ E). simpl. exists [].
    rewrite app_nil_r. repeat split; [constructor | simpl; lia].
Qed.

Lemma handle_result_writes (result : SpeechResult) (state : TypeState)
      (w : World) :
  exists typed : list (list char),
    keyboard (snd (handle_result result state w)) = keyboard w ++ typed /\
    Forall trimmed_then_space typed /\ (length typed <= 1)%nat.
Proof.
  destruct (nonempty (text (transcript result))) eqn:Hne.
  - rewrite (handle_result_text _ _ _ Hne), end_of_turn_keyboard.
    destruct (should_type result state w); [apply commit_writes|].
    exists []. simpl. rewrite app_nil_r. repeat split; [constructor|lia].
  - unfold handle_result. rewrite Hne. exists []. simpl.
    rewrite app_nil_r. repeat split; [constructor|lia].
Qed.

(** X2. Whatever results the loop is given, it only ever adds to what has
    been typed, at most one string for each result, and every string it
    hands to the keyboard is a text that is not empty and has no
    whitespace at either end, followed by one space.  The loop never
    touches the shutdown flag. *)
Theorem typed_strings_are_trimmed (rs : list SpeechResult) :
  forall (state : TypeState) (w : World),
  exists typed : list (list char),
    keyboard (snd (handle_results_loop rs state w)) = keyboard w ++ typed /\
    Forall trimmed_then_space typed /\
    (length typed <= length rs)%nat /\
    exit_event (snd (handle_results_loop rs state w)) = exit_event w.
Proof.
  induction rs as [|r rest IH]; intros state w.
  - exists []. simpl. rewrite app_nil_r. repeat split; [constructor|lia].
  - simpl handle_results_loop. destruct (exit_event w) eqn:Hx.
    + exists []. simpl. rewrite app_nil_r. repeat split; [constructor|lia|exact Hx].
    + destruct (handle_result_writes r state (set_now (timestamp r) w))
        as (t1 & Hk1 & Hf1 & Hl1).
      pose proof (handle_result_exit_event r state (set_now (timestamp r) w))
        as Hx1.
      destruct (handle_result r state (set_now (timestamp r) w)) as [s1 w1].
      simpl in Hk1, Hx1.
      destruct (IH s1 w1) as (t2 & Hk2 & Hf2 & Hl2 & Hx2).
      exists (t1 ++ t2). rewrite Hk2, Hk1, Hx2, Hx1, app_assoc.
      repeat split.
      * apply Forall_app. now split.
      * rewrite length_app. simpl. lia.
      * exact Hx.
Qed.

Lemma handle_result_baseline (result : SpeechResult) (state : TypeState)
      (w : World) :
  last_typed_text (fst (handle_result result state w)) = [] \/
  last_typed_text (fst (handle_result result state w)) = last_typed_text state \/
  last_typed_text (fst (handle_result result state w)) = candidate result.
Proof.
  destruct (nonempty (text (transcript result))) eqn:Hne.
  - rewrite (handle_result_text _ _ _ Hne). unfold end_of_turn.
    destruct (is_final (transcript result)); [now left|].
    destruct (should_type result state w); [|now right; left].
    destruct (nonempty (text_to_type (candidate result) (last_typed_text state)))
      eqn:E.
    + rewrite (commit_types _ _ _ E). now right; right.
    + rewrite (commit_silent _ _ _ E). now right; left.
  - unfold handle_result. rewrite Hne. now right; left.
Qed.

(** X3. The diff baseline is never made up: after any run of the loop it is
    empty, or the baseline the loop started with, or the trimmed text of
    one of the results the loop was given. *)
Theorem baseline_comes_from_results (rs : list SpeechResult) :
  forall (state : TypeState) (w : World),
    In (last_typed_text (fst (handle_results_loop rs state w)))
       ([] :: last_typed_text state :: map candidate rs).
Proof.
  induction rs as [|r rest IH]; intros state w.
  - simpl. now right; left.
  - simpl handle_results_loop.
    destruct (exit_event w); [now right; left|].
    pose proof (handle_result_baseline r state (set_now (timestamp r) w)) as Hb.
    destruct (handle_result r state (set_now (timestamp r) w)) as [s1 w1].
    simpl in Hb. specialize (IH s1 w1). simpl in IH |- *.
    destruct IH as [E | [E | Hin]].
    + now left.
    + rewrite <- E.
      destruct Hb as [Hb | [Hb | Hb]]; rewrite Hb; tauto.
    + tauto.
Qed.

(** X4. A hypothesis whose text is nothing but whitespace passes the test
    for text, but its commit types nothing and leaves the typing state as
    it is; it still counts as activity. *)
Theorem blank_text_types_nothing (result : SpeechResult) (state : TypeState)
        (w : World) :
  forallb isspace (text (transcript result)) = true ->
  commit result state w = (state, set_last_speech_time (now w) w).
Proof.
  intro Hs. apply commit_silent. unfold candidate, strip.
  rewrite (lstrip_all_space _ Hs). reflexivity.
Qed.

End DiffFacts.

Section LoopFacts.

Context {char : Type} `{Alphabet char}.

Local Abbreviation SpeechResult := (@SpeechResult char).
Local Abbreviation TypeState := (@TypeState char).
Local Abbreviation World := (@World char).
Local Abbreviation Response := (@Response char).
Local Abbreviation Inbound := (@Inbound char).

Lemma commit_now (result : SpeechResult) (state : TypeState) (w : World) :
  now (snd (commit result state w)) = now w.
Proof. unfold commit. destruct (nonempty (text_to_type _ _)); reflexivity. Qed.

Lemma handle_result_now (result : SpeechResult) (state : TypeState) (w : World) :
  now (snd (handle_result result state w)) = now w.
Proof.
  destruct (nonempty (text (transcript result))) eqn:Hne.
  - rewrite (handle_result_text _ _ _ Hne). unfold end_of_turn.
    destruct (should_type result state w);
      destruct (is_final (transcript result)); simpl;
      try apply commit_now; reflexivity.
  - unfold handle_result. now rewrite Hne.
Qed.

Lemma handle_result_last_speech_time (result : SpeechResult)
      (state : TypeState) (w : World) :
  last_speech_time (snd (handle_result result state w)) =
  if nonempty (text (transcript result)) && should_type result state w
  then now w else last_speech_time w.
Proof.
  destruct (nonempty (text (transcript result))) eqn:Hne.
  - rewrite (handle_result_text _ _ _ Hne). unfold end_of_turn. simpl.
    destruct (should_type result state w).
    + unfold commit. destruct (nonempty (text_to_type _ _));
        destruct (is_final (transcript result)); reflexivity.
    + destruct (is_final (transcript result)); reflexivity.
  - unfold handle_result. now rewrite Hne.
Qed.

Lemma handle_results_loop_exit_event (rs : list SpeechResult) :
  forall (state : TypeState) (w : World),
    exit_event (snd (handle_results_loop rs state w)) = exit_event w.
Proof.
  induction rs as [|r rest IH]; intros state w; [reflexivity|].
  simpl handle_results_loop. destruct (exit_event w) eqn:Hx; [exact Hx|].
  pose proof (handle_result_exit_event r state (set_now (timestamp r) w)) as Hx1.
  destruct (handle_result r state (set_now (timestamp r) w)) as [s1 w1].
  rewrite IH. simpl in Hx1. now rewrite Hx1.
Qed.

Lemma handle_results_loop_app (rs rs' : list SpeechResult) :
  forall (state : TypeState) (w : World),
    exit_event w = false ->
    handle_results_loop (rs ++ rs') state w =
    handle_results_loop rs' (fst (handle_results_loop rs state w))
                            (snd (handle_results_loop rs state w)).
Proof.
  induction rs as [|r rest IH]; intros state w Hx; [reflexivity|].
  rewrite <- app_comm_cons. rewrite !(handle_results_loop_cons _ _ _ _ Hx).
  apply IH. now rewrite handle_result_exit_event.
Qed.

Lemma handle_results_loop_one (r : SpeechResult) (state : TypeState) (w : World) :
  exit_event w = false ->
  handle_results_loop [r] state w
  = handle_result r state (set_now (timestamp r) w).
Proof.
  intro Hx. rewrite (handle_results_loop_cons _ _ _ _ Hx). simpl.
  now destruct (handle_result r state (set_now (timestamp r) w)).
Qed.

(** X5. After a result that made the engine type, or a final result with
    text, a partial result that arrives less than [TYPE_INTERVAL] later is
    passed over, whatever its text and its stability: nothing is typed,
    and neither the typing state nor the last-activity timestamp moves. *)
Theorem partial_throttled_after_typing (r1 r2 : SpeechResult)
        (state : TypeState) (w : World) :
  exit_event w = false ->
  nonempty (text (transcript r1)) = true ->
  is_final (transcript r1) = true \/
  keyboard (snd (handle_results_loop [r1] state w)) <> keyboard w ->
  is_final (transcript r2) = false ->
  timestamp r2 - timestamp r1 < TYPE_INTERVAL ->
  handle_results_loop [r1; r2] state w =
  (fst (handle_results_loop [r1] state w),
   set_now (timestamp r2) (snd (handle_results_loop [r1] state w))).
Proof.
  intros Hx Hne1 Hact Hf2 Hlt.
  change [r1; r2] with ([r1] ++ [r2]).
  rewrite (handle_results_loop_app _ _ _ _ Hx).
  rewrite (handle_results_loop_one _ _ _ Hx) in *.
  set (w1 := set_now (timestamp r1) w) in *.
  assert (Ht : last_type_time (fst (handle_result r1 state w1)) = timestamp r1).
  { rewrite (handle_result_text _ _ _ Hne1) in *. unfold end_of_turn in *.
    destruct (is_final (transcript r1)) eqn:Hf1.
    - simpl. destruct (should_type r1 state w1); [apply commit_now|reflexivity].
    - destruct Hact as [Hact|Hact]; [discriminate|].
      destruct (should_type r1 state w1); [|now elim Hact].
      destruct (nonempty (text_to_type (candidate r1) (last_typed_text state)))
        eqn:E.
      + rewrite (commit_types _ _ _ E). reflexivity.
      + rewrite (commit_silent _ _ _ E) in Hact. now elim Hact. }
  assert (Hx1 : exit_event (snd (handle_result r1 state w1)) = false)
    by now rewrite handle_result_exit_event.
  rewrite (handle_results_loop_one _ _ _ Hx1).
  assert (Hs : should_type r2 (fst (handle_result r1 state w1))
                 (set_now (timestamp r2) (snd (handle_result r1 state w1)))
               = false).
  { unfold should_type. rewrite Hf2, Ht. simpl.
    destruct (geb (timestamp r2 - timestamp r1) TYPE_INTERVAL) eqn:E;
      [|reflexivity].
    apply geb_true_iff in E. exfalso. apply (Qlt_not_le _ _ Hlt E). }
  destruct (nonempty (text (transcript r2))) eqn:Hne2.
  - rewrite (handle_result_text _ _ _ Hne2), Hs. unfold end_of_turn.
    now rewrite Hf2.
  - unfold handle_result. now rewrite Hne2.
Qed.

(** X6. A final result with text ends the utterance whatever came before
    it: the typing state it leaves is the fresh one of its arrival time,
    with an empty baseline, and the results after it are handled as a
    run of their own from that state. *)
Theorem final_starts_fresh_utterance (rs rs' : list SpeechResult)
        (r : SpeechResult) (state : TypeState) (w : World) :
  exit_event w = false ->
  is_final (transcript r) = true ->
  nonempty (text (transcript r)) = true ->
  fst (handle_results_loop (rs ++ [r]) state w)
  = {| last_type_time := timestamp r; last_typed_text := [] |} /\
  handle_results_loop (rs ++ r :: rs') state w =
  handle_results_loop rs'
    {| last_type_time := timestamp r; last_typed_text := [] |}
    (snd (handle_results_loop (rs ++ [r]) state w)).
Proof.
  intros Hx Hf Hne.
  assert (H1 : fst (handle_results_loop (rs ++ [r]) state w)
               = {| last_type_time := timestamp r; last_typed_text := [] |}).
  { rewrite (handle_results_loop_app _ _ _ _ Hx).
    rewrite handle_results_loop_one
      by now rewrite handle_results_loop_exit_event.
    rewrite (handle_result_text _ _ _ Hne), (should_type_final _ _ _ Hf).
    unfold end_of_turn. rewrite Hf. simpl. unfold time_time.
    now rewrite commit_now. }
  split; [exact H1|].
  change (r :: rs') with ([r] ++ rs'). rewrite app_assoc.
  rewrite (handle_results_loop_app _ _ _ _ Hx). now rewrite H1.
Qed.

Lemma process_responses_map (responses : list (Q * Response)) (w : World) :
  exit_event w = false ->
  process_responses responses w
  = map (fun tr => normalize (fst tr) (snd tr)) responses.
Proof.
  intro Hx. induction responses as [|[t response] rest IH]; simpl;
    [reflexivity|]. now rewrite Hx, IH.
Qed.

Lemma handle_inbound_loop_received (pre : list (Q * Response))
      (tail : list Inbound) :
  forall (state : TypeState) (w : World),
    exit_event w = false ->
    handle_inbound_loop
      (map (fun tr => Received (fst tr) (snd tr)) pre ++ tail) state w =
    handle_inbound_loop tail
      (fst (handle_results_loop
              (map (fun tr => normalize (fst tr) (snd tr)) pre) state w))
      (snd (handle_results_loop
              (map (fun tr => normalize (fst tr) (snd tr)) pre) state w)).
Proof.
  induction pre as [|[t response] rest IH]; intros state w Hx; [reflexivity|].
  simpl map. rewrite (handle_results_loop_cons _ _ _ _ Hx).
  rewrite <- app_comm_cons. simpl handle_inbound_loop. rewrite Hx.
  assert (Ets : timestamp (normalize t response) = t).
  { unfold normalize. destruct (results response) as [|res ?]; [reflexivity|].
    destruct (alternatives res); reflexivity. }
  rewrite Ets.
  pose proof (handle_result_exit_event (normalize t response) state
                (set_now t w)) as Hx1.
  destruct (handle_result (normalize t response) state (set_now t w))
    as [s1 w1]. simpl in Hx1 |- *.
  apply IH. now rewrite Hx1.
Qed.

(** X7. When the stream of responses breaks, the session has typed exactly
    what the responses received before the break make the engine type,
    its last-activity timestamp is theirs, the shutdown flag is set, and
    nothing that the stream might still have delivered plays a part. *)
Theorem broken_stream_shuts_down (pre : list (Q * Response)) (t : Q)
        (rest : list Inbound) (w : World) :
  exit_event w = false ->
  let w' := run_speech_service
              (map (fun tr => Received (fst tr) (snd tr)) pre
               ++ Broken t :: rest) w in
  exit_event w' = true /\
  keyboard w' = keyboard (snd (process pre w)) /\
  last_speech_time w' = last_speech_time (snd (process pre w)).
Proof.
  intros Hx w'. subst w'. unfold run_speech_service, process, handle_results.
  rewrite (handle_inbound_loop_received _ _ _ _ Hx).
  rewrite (process_responses_map _ _ Hx). simpl. repeat split.
Qed.

(** X8. When the stream of responses ends without breaking, the session
    ends as the engine leaves it: in particular the end of the stream
    does not set the shutdown flag. *)
Theorem ended_stream_leaves_flag (responses : list (Q * Response)) (w : World) :
  exit_event w = false ->
  run_speech_service (map (fun tr => Received (fst tr) (snd tr)) responses) w
  = snd (process responses w) /\
  exit_event
    (run_speech_service (map (fun tr => Received (fst tr) (snd tr)) responses) w)
  = false.
Proof.
  intro Hx.
  assert (E : run_speech_service
                (map (fun tr => Received (fst tr) (snd tr)) responses) w
              = snd (process responses w)).
  { unfold run_speech_service, process, handle_results.
    rewrite <- (app_nil_r (map _ responses)).
    rewrite (handle_inbound_loop_received _ _ _ _ Hx).
    rewrite (process_responses_map _ _ Hx). reflexivity. }
  split; [exact E|]. rewrite E. unfold process, handle_results.
  now rewrite handle_results_loop_exit_event.
Qed.

End LoopFacts.

Section BufferFacts.

Context {char : Type} `{Alphabet char}.

Local Abbreviation System := (@System char).
Local Abbreviation Event := (@Event char).
Local Abbreviation Response := (@Response char).
Local Abbreviation TypeState := (@TypeState char).

Lemma step_frames (e : Event) (s : System) :
  sent (step e s) ++ buff (mic (step e s))
  = sent s ++ buff (mic s) ++ accepted [e] (closed (mic s)) /\
  closed (mic (step e s))
  = match e with Close => true | _ => closed (mic s) end.
Proof.
  destruct e; simpl.
  - rewrite app_nil_r. destruct (typing s); [|now split]. simpl.
    destruct (exit_event (world s)); [now split|].
    destruct (handle_result _ _ _). now split.
  - unfold fill_buffer. destruct (closed (mic s)) eqn:Hc; simpl.
    + rewrite app_nil_r. now split.
    + now split.
  - rewrite app_nil_r.
    destruct (negb (closed (mic s)) && negb (exit_event (world s)));
      [|now split].
    destruct (buff (mic s)) as [|frame rest] eqn:Hb; simpl.
    + rewrite Hb. now split.
    + rewrite <- app_assoc. now split.
  - rewrite app_nil_r. destruct (monitoring s); [|now split]. simpl.
    destruct (exit_event (world s)); [now split|].
    destruct (gtb _ _); now split.
  - rewrite app_nil_r. now split.
  - rewrite app_nil_r. unfold mic_exit.
    destruct (closed (mic s)) eqn:Hc; simpl; [now split|]. now split.
Qed.

Lemma accepted_cons (e : Event) (es : list Event) (c : bool) :
  accepted (e :: es) c
  = accepted [e] c ++ accepted es (match e with Close => true | _ => c end).
Proof. destruct e; simpl; try reflexivity. now destruct c. Qed.

(** X9. The audio buffer is first in, first out and loses nothing: at any
    time the frames the generator has yielded, followed by the frames
    still queued, are the frames the capture callback was given while the
    buffer was open, in the order of capture. *)
Theorem frames_first_in_first_out (es : list Event) :
  forall s : System,
    sent (run es s) ++ buff (mic (run es s))
    = sent s ++ buff (mic s) ++ accepted es (closed (mic s)).
Proof.
  induction es as [|e es IH]; intro s.
  - simpl. now rewrite app_nil_r.
  - simpl run. rewrite IH, accepted_cons.
    destruct (step_frames e s) as [Hf Hc]. rewrite Hc.
    rewrite app_assoc, Hf. now rewrite <- !app_assoc.
Qed.

Lemma step_sent_stopped (e : Event) (s : System) :
  exit_event (world s) = true \/ closed (mic s) = true ->
  sent (step e s) = sent s.
Proof.
  intro Hstop. destruct e; simpl; try reflexivity.
  - destruct (typing s); [|reflexivity]. simpl.
    destruct (exit_event (world s)); [reflexivity|].
    now destruct (handle_result _ _ _).
  - destruct Hstop as [Hx | Hc].
    + now rewrite Hx, andb_false_r.
    + now rewrite Hc.
  - destruct (monitoring s); [|reflexivity]. simpl.
    destruct (exit_event (world s)); [reflexivity|].
    now destruct (gtb _ _).
Qed.

(** X10. Once the shutdown flag is set or the buffer is closed, the
    generator yields no further frame, whatever else happens: frames
    that are still queued at that moment are never sent. *)
Theorem generator_stops (es : list Event) :
  forall s : System,
    exit_event (world s) = true \/ closed (mic s) = true ->
    sent (run es s) = sent s.
Proof.
  induction es as [|e es IH]; intros s Hstop; [reflexivity|].
  simpl run. rewrite IH.
  - now apply step_sent_stopped.
  - destruct Hstop as [Hx | Hc].
    + left. now apply step_after_shutdown.
    + right. now apply step_after_close.
Qed.

(** X11. A poll of the monitor that follows the handling of a response
    sets the shutdown flag exactly when the time since the last activity
    exceeds [SILENCE_THRESHOLD], where a response whose hypothesis has
    text and is committed counts as activity at its arrival, typed suffix
    or not, and any other response leaves the last activity where it
    was. *)
Theorem poll_after_deliver (t t2 : Q) (response : Response)
        (state : TypeState) (s : System) :
  typing s = Some state ->
  monitoring s = true ->
  exit_event (world s) = false ->
  let r := normalize t response in
  exit_event (world (run [Deliver t response; Poll t2] s)) =
  gtb (t2 - (if nonempty (text (transcript r))
                && should_type r state (set_now t (world s))
             then t else last_speech_time (world s)))
      SILENCE_THRESHOLD.
Proof.
  intros Ht Hm Hx r.
  change (run [Deliver t response; Poll t2] s)
    with (step (Poll t2) (step (Deliver t response) s)).
  pose proof (handle_result_exit_event r state (set_now t (world s))) as Hx1.
  pose proof (handle_result_last_speech_time r state (set_now t (world s)))
    as Hl.
  assert (Hd : step (Deliver t response) s =
               {| world := snd (handle_result r state (set_now t (world s)));
                  mic := mic s;
                  typing := Some (fst (handle_result r state
                                         (set_now t (world s))));
                  monitoring := monitoring s; sent := sent s |}).
  { unfold step. rewrite Ht. simpl. rewrite Hx. fold r.
    now destruct (handle_result r state (set_now t (world s))). }
  simpl in Hx1, Hl. rewrite Hx in Hx1.
  rewrite Hd. unfold step. cbn [monitoring world]. rewrite Hm.
  cbn [exit_event set_now time_time now last_speech_time]. rewrite Hx1, Hl.
  destruct (gtb _ SILENCE_THRESHOLD) eqn:E; cbn [world]; [reflexivity|].
  exact Hx1.
Qed.

End BufferFacts.

(** ** Concrete sessions, continued *)

Lemma blank_text_types_nothing_witness :
  commit (hypothesis 1 "   " 1 true) (TypeState_fresh (world_at 0))
    (set_now 1 (world_at 0))
  = (TypeState_fresh (world_at 0),
     set_last_speech_time 1 (set_now 1 (world_at 0))).
Proof.
  apply (blank_text_types_nothing (hypothesis 1 "   " 1 true)
           (TypeState_fresh (world_at 0)) (set_now 1 (world_at 0))).
  reflexivity.
Defined.

Lemma partial_throttled_after_typing_witness :
  keyboard (snd (handle_results_loop
                   [hypothesis 2 "one" 1 false;
                    hypothesis (5 # 2) "one two" 1 false]
                   (TypeState_fresh (world_at 0)) (world_at 0)))
  = [py "one "].
Proof.
  rewrite (partial_throttled_after_typing
             (hypothesis 2 "one" 1 false) (hypothesis (5 # 2) "one two" 1 false)
             (TypeState_fresh (world_at 0)) (world_at 0)).
  - reflexivity.
  - reflexivity.
  - reflexivity.
  - right. vm_compute. discriminate.
  - reflexivity.
  - vm_compute. reflexivity.
Defined.

Lemma final_starts_fresh_utterance_witness :
  fst (handle_results_loop
         ([hypothesis 2 "one" 1 false] ++ [hypothesis 3 "one two" 0 true])
         (TypeState_fresh (world_at 0)) (world_at 0))
  = {| last_type_time := 3; last_typed_text := [] |}.
Proof.
  destruct (final_starts_fresh_utterance
              [hypothesis 2 "one" 1 false] []
              (hypothesis 3 "one two" 0 true)
              (TypeState_fresh (world_at 0)) (world_at 0)) as [Hs _];
    [reflexivity | reflexivity | reflexivity |].
  exact Hs.
Defined.

Lemma broken_stream_shuts_down_witness :
  exit_event
    (run_speech_service
       (map (fun tr => Received (fst tr) (snd tr))
            [(2, mkResponse [mkResult [mkAlternative (py "one")] true 1])]
        ++ Broken 3 :: [Received 4 (mkResponse [])])
       (world_at 0)) = true /\
  keyboard
    (run_speech_service
       (map (fun tr => Received (fst tr) (snd tr))
            [(2, mkResponse [mkResult [mkAlternative (py "one")] true 1])]
        ++ Broken 3 :: [Received 4 (mkResponse [])])
       (world_at 0)) = [py "one "].
Proof.
  destruct (broken_stream_shuts_down
              [(2, mkResponse [mkResult [mkAlternative (py "one")] true 1])]
              3 [Received 4 (mkResponse [])] (world_at 0)) as (Hx & Hk & _);
    [reflexivity|].
  split; [exact Hx | exact Hk].
Defined.

Lemma ended_stream_leaves_flag_witness :
  exit_event
    (run_speech_service
       (map (fun tr => Received (fst tr) (snd tr))
            [(2, mkResponse [mkResult [mkAlternative (py "one")] true 1])])
       (world_at 0)) = false.
Proof.
  destruct (ended_stream_leaves_flag
              [(2, mkResponse [mkResult [mkAlternative (py "one")] true 1])]
              (world_at 0)) as [_ Hx]; [reflexivity|].
  exact Hx.
Defined.

Lemma generator_stops_witness :
  sent (run [Capture [Byte.x02]; Take; Take]
            (run [Capture [Byte.x01]; Signal] (@start ascii 0))) = [].
Proof.
  apply (generator_stops [Capture [Byte.x02]; Take; Take]
           (run [Capture [Byte.x01]; Signal] (@start ascii 0))).
  left. reflexivity.
Defined.

Lemma poll_after_deliver_witness :
  exit_event
    (world (run [Deliver 2 (mkResponse
                              [mkResult [mkAlternative (py "one")] true 1]);
                 Poll 4]
                (@start ascii 0))) = false.
Proof.
  rewrite (poll_after_deliver 2 4
             (mkResponse [mkResult [mkAlternative (py "one")] true 1])
             (TypeState_fresh (world_at 0)) (@start ascii 0));
    reflexivity.
Defined.
